(** * ceph/src/common/backport14.h

    A shallow embedding of the C++14/17/TS backports of
    [src/common/backport14.h] and the properties of its utilities:
    [make_unique], [max], [not_fn] and [ostream_joiner].

    Templates become polymorphic definitions, objects with identity live
    in finite maps indexed by their address, and a call that the compiler
    rejects evaluates to the outcome [IllFormed]. *)

From Stdlib Require Import QArith.Qcanon.
From stdpp Require Import base option numbers gmap strings list pretty.

(** ** Outcomes of a call

    [Done] is a call that was compiled and ran to completion, [IllFormed]
    a call that the compiler rejects, with the reason, [Undefined] a call
    through a pointer that designates no live object, [Thrown] a call
    that left by an exception. *)

Inductive diagnostic : Type :=
| DeletedFunction      (* use of a function declared [= delete] *)
| NoMatchingFunction   (* no candidate survives overload resolution *)
| AmbiguousCall        (* several candidates, none better *)
| NoConversion.        (* an initialisation with no implicit conversion *)

Inductive exception : Type :=
| bad_array_new_length.   (* std::bad_array_new_length *)

Inductive outcome (A : Type) : Type :=
| Done (a : A)
| IllFormed (d : diagnostic)
| Undefined
| Thrown (e : exception).

Arguments Done {A} a.
Arguments IllFormed {A} d.
Arguments Undefined {A}.
Arguments Thrown {A} e.

Definition is_done {A} (o : outcome A) : bool :=
  match o with Done _ => true | _ => false end.

(** Addresses of objects: heap blocks, streams, joiners. *)
Definition loc := positive.

(** ** namespace ceph::_backport14 *)

Module Backport14.

(** *** Values, types and the free store *)

(** Run-time values.  A null pointer is [VPtr None]. *)
#[local] Set Warnings "-register-all".
Inductive value : Type :=
| VInt (z : Z)
| VFloat (q : Qc)
| VPtr (p : option loc)
| VObject (members : list value)
| VArray (elems : list value).

(** The value category of an argument expression at the call site;
    xvalues and prvalues are both [Rvalue]. *)
Inductive value_category : Type := Lvalue | Rvalue.

Definition arg : Type := value_category * value.

(** A class is known by its constructors: the object an argument list
    builds, or [None] when no constructor accepts it.  The constructor
    sees the category of each argument (copy against move).
    [class_size] is [sizeof] of the class, in bytes. *)
Record class_desc : Type := ClassDesc {
  class_name : string;
  class_size : positive;
  constructors : list arg → option value
}.

(** The shapes of type [uniquity] tells apart, with the scalar and class
    types as plain ones. *)
Inductive cxx_type : Type :=
| TInt
| TFloat
| TPointer (pointee : cxx_type)
| TClass (c : class_desc)
| TUnboundedArray (elem : cxx_type)          (* E[] *)
| TBoundedArray (elem : cxx_type) (N : N).   (* E[N] *)

(** [sizeof(T)] in bytes, with [int] for [TInt], [double] for [TFloat]
    and 64-bit pointers; an array takes its bound times its element. *)
Fixpoint sizeof (T : cxx_type) : N :=
  match T with
  | TInt => 4
  | TFloat => 8
  | TPointer _ => 8
  | TClass c => Npos (class_size c)
  | TBoundedArray E n => n * sizeof E
  | TUnboundedArray _ => 0
  end.

(** [remove_extent_t<T>] *)
Definition remove_extent_t (T : cxx_type) : cxx_type :=
  match T with
  | TUnboundedArray E => E
  | TBoundedArray E _ => E
  | _ => T
  end.

(** The member alias that the selected specialisation of [uniquity<T>]
    declares: the primary template [datum], [uniquity<T[]>] [array],
    [uniquity<T[N]>] [verboten].  Each declares exactly one. *)
Inductive uniquity_member : Type := datum | array | verboten.

Global Instance uniquity_member_eq_dec : EqDecision uniquity_member.
Proof. solve_decision. Defined.

Definition uniquity (T : cxx_type) : uniquity_member :=
  match T with
  | TUnboundedArray _ => array
  | TBoundedArray _ _ => verboten
  | _ => datum
  end.

(** [typename uniquity<T>::m] names a type only when the specialisation
    declares [m]; otherwise substitution fails. *)
Definition has_member (T : cxx_type) (m : uniquity_member) : bool :=
  bool_decide (uniquity T = m).

(** Zero-initialisation and value-initialisation ([T()]): scalars are
    zeroed, a class runs its default constructor, an array initialises
    each element.  [None] when the type has no such initialisation. *)
Definition zero (T : cxx_type) : option value :=
  match T with
  | TInt => Some (VInt 0)
  | TFloat => Some (VFloat 0)
  | TPointer _ => Some (VPtr None)
  | _ => None
  end.

Fixpoint value_init (T : cxx_type) : option value :=
  match T with
  | TInt => Some (VInt 0)
  | TFloat => Some (VFloat 0)
  | TPointer _ => Some (VPtr None)
  | TClass c => constructors c []
  | TBoundedArray E n => v ← value_init E; Some (VArray (replicate (N.to_nat n) v))
  | TUnboundedArray _ => None
  end.


(** Direct-initialisation [T(args...)] of a plain type.  Arguments are
    taken to have the parameter's type already: implicit conversions
    between scalar types are not modelled. *)
Definition direct_init (T : cxx_type) (args : list arg) : option value :=
  match T with
  | TInt =>
      match args with
      | [] => Some (VInt 0)
      | [(_, VInt z)] => Some (VInt z)
      | _ => None
      end
  | TFloat =>
      match args with
      | [] => Some (VFloat 0)
      | [(_, VFloat q)] => Some (VFloat q)
      | _ => None
      end
  | TPointer _ =>
      match args with
      | [] => Some (VPtr None)
      | [(_, VPtr p)] => Some (VPtr p)
      | _ => None
      end
  | TClass c => constructors c args
  | TUnboundedArray _ | TBoundedArray _ _ => None
  end.

(** A block of the free store: what one [new] or [new[]] expression
    created, with the type it was created at. *)
Inductive block : Type :=
| Single (T : cxx_type) (v : value)
| Sequence (E : cxx_type) (vs : list value).

Definition elements_of (b : block) : list value :=
  match b with
  | Single _ v => [v]
  | Sequence _ vs => vs
  end.

Abbreviation heap := (gmap loc block).

(** The allocator hands out an address that holds no live block. *)
Definition allocate (h : heap) : loc := fresh (dom h).

(** [std::unique_ptr<T>]: the type it was instantiated at and the stored
    pointer. *)
Record unique_ptr : Type := UniquePtr {
  element_type : cxx_type;
  get : option loc
}.

(** [~unique_ptr()]: [delete] for an object pointer, [delete[]] for
    [unique_ptr<E[]>]; a null pointer owns nothing. *)
Definition unique_ptr_destroy (p : unique_ptr) (h : heap) : outcome heap :=
  match get p with
  | None => Done h
  | Some l =>
      match h !! l, element_type p with
      | Some (Sequence _ _), TUnboundedArray _ => Done (delete l h)
      | Some (Sequence _ _), _ => Undefined
      | Some (Single _ _), TUnboundedArray _ => Undefined
      | Some (Single _ _), _ => Done (delete l h)
      | None, _ => Undefined
      end
  end.

(** *** Perfect forwarding *)

(** The template argument deduced for a forwarding reference [Args&&]:
    [U&] from an lvalue, [U] from an rvalue. *)
Inductive deduced : Type := LvalueRef | NonReference.

Definition deduce (a : arg) : deduced * value :=
  match a.1 with
  | Lvalue => (LvalueRef, a.2)
  | Rvalue => (NonReference, a.2)
  end.

(** [std::forward<A>(x)]: an lvalue when [A] is an lvalue reference, an
    rvalue otherwise. *)
Definition forward (p : deduced * value) : arg :=
  match p.1 with
  | LvalueRef => (Lvalue, p.2)
  | NonReference => (Rvalue, p.2)
  end.

(** *** make_unique *)

(** [std::size_t] is [size_bits] wide; an integer argument converts to it
    modulo [2 ^ size_bits]. *)
Definition size_bits : Z := 64.

Definition to_size_t (z : Z) : N := Z.to_N (z mod 2 ^ size_bits).

(** The single parameter [std::size_t n] of the array overload. *)
Definition size_argument (args : list arg) : option N :=
  match args with
  | [(_, VInt z)] => Some (to_size_t z)
  | _ => None
  end.

(** The three function templates named [make_unique], in source order. *)
Inductive overload : Type :=
| make_unique_datum       (* uniquity<T>::datum make_unique(Args&&...) *)
| make_unique_array       (* uniquity<T>::array make_unique(std::size_t) *)
| make_unique_verboten.   (* uniquity<T>::verboten make_unique(Args&&...) = delete *)

Definition overloads : list overload :=
  [make_unique_datum; make_unique_array; make_unique_verboten].

(** An overload is a candidate when its return type names a type and its
    parameters accept the arguments; a pack [Args&&...] accepts any. *)
Definition viable (T : cxx_type) (args : list arg) (o : overload) : bool :=
  match o with
  | make_unique_datum => has_member T datum
  | make_unique_array => has_member T array && bool_decide (is_Some (size_argument args))
  | make_unique_verboten => has_member T verboten
  end.

Definition candidates (T : cxx_type) (args : list arg) : list overload :=
  filter (λ o, viable T args o = true) overloads.

(** [std::unique_ptr<T>(new T(std::forward<Args>(args)...))] *)
Definition make_unique_datum_body (T : cxx_type) (args : list arg) (h : heap)
  : outcome (unique_ptr * heap) :=
  match direct_init T (forward <$> (deduce <$> args)) with
  | Some v =>
      let l := allocate h in
      Done (UniquePtr T (Some l), <[l := Single T v]> h)
  | None => IllFormed NoMatchingFunction
  end.

(** The largest array an array new-expression creates, in bytes
    ([PTRDIFF_MAX]): a larger request leaves by
    [std::bad_array_new_length] before anything is allocated. *)
Definition max_array_bytes : N := 2 ^ 63 - 1.

Definition array_fits (E : cxx_type) (n : N) : bool :=
  (n * sizeof E <=? max_array_bytes)%N.

(** [new E[n]()]: the elements must have a value-initialisation for the
    expression to compile; at run time the size is checked, then the
    block is allocated and each element value-initialised.  The free
    store itself is taken to have room. *)
Definition new_array (E : cxx_type) (n : N) (h : heap) : outcome (loc * heap) :=
  match value_init E with
  | Some v =>
      if array_fits E n then
        let l := allocate h in
        Done (l, <[l := Sequence E (replicate (N.to_nat n) v)]> h)
      else Thrown bad_array_new_length
  | None => IllFormed NoMatchingFunction
  end.

(** [std::unique_ptr<T>(new remove_extent_t<T>[n]())] *)
Definition make_unique_array_body (T : cxx_type) (n : N) (h : heap)
  : outcome (unique_ptr * heap) :=
  match new_array (remove_extent_t T) n h with
  | Done (l, h') => Done (UniquePtr T (Some l), h')
  | IllFormed d => IllFormed d
  | Undefined => Undefined
  | Thrown e => Thrown e
  end.

(** A call [make_unique<T>(args...)]: overload resolution, then the body
    of the selected template.  Selecting the deleted one is an error. *)
Definition make_unique (T : cxx_type) (args : list arg) (h : heap)
  : outcome (unique_ptr * heap) :=
  match candidates T args with
  | [make_unique_datum] => make_unique_datum_body T args h
  | [make_unique_array] =>
      match size_argument args with
      | Some n => make_unique_array_body T n h
      | None => IllFormed NoConversion
      end
  | [make_unique_verboten] => IllFormed DeletedFunction
  | [] => IllFormed NoMatchingFunction
  | _ => IllFormed AmbiguousCall
  end.

(** A class that remembers how it was built: [tracked()] holds 0,
    [tracked(const int&)] copies its argument and [tracked(int&&)] moves
    from it; the second member tells the two apart. *)
Definition tracked : class_desc :=
  {| class_name := "tracked";
     class_size := 8;
     constructors := λ args,
       match args with
       | [] => Some (VObject [VInt 0; VInt 0])
       | [(Lvalue, VInt z)] => Some (VObject [VInt z; VInt 1])
       | [(Rvalue, VInt z)] => Some (VObject [VInt z; VInt 2])
       | _ => None
       end |}.

(** *** max *)

(** [operator<] of the element type. *)
Class Less (T : Type) := less : T → T → bool.

Global Instance Z_less : Less Z := Z.ltb.
Global Instance nat_less : Less nat := Nat.ltb.

(** A [const T&]: the address of the referent and the value read there. *)
Record cref (T : Type) : Type := CRef {
  address : loc;
  referent : T
}.

Arguments CRef {T} address referent.
Arguments address {T} c.
Arguments referent {T} c.

(** [return a < b ? b : a;] *)
Definition max {T : Type} `{Less T} (a b : cref T) : cref T :=
  if less (referent a) (referent b) then b else a.

End Backport14.

(** ** namespace ceph::_backport17 *)

Module Backport17.

(** The ref-qualifier and constness of the object expression a call
    operator is invoked on. *)
Inductive qualifier : Type :=
| lvalue_call          (* &       *)
| const_lvalue_call    (* const&  *)
| rvalue_call          (* &&      *)
| const_rvalue_call.   (* const&& *)

(** A callable type [F] taking arguments [A] (with their value
    categories) and returning [R], run in a world [W]: one call gives the
    result, the function object after the call and the world after it. *)
Class Callable (F A R W : Type) := invoke : qualifier → F → A → W → R * F * W.

(** A result type that [operator!] applies to: its truth value. *)
Class BoolTestable (R : Type) := truth : R → bool.

Global Instance bool_testable : BoolTestable bool := id.
Global Instance Z_testable : BoolTestable Z := λ z, negb (Z.eqb z 0).

(** [!r] *)
Definition lnot {R : Type} `{BoolTestable R} (r : R) : bool := negb (truth r).

(** [class not_fn_result]: the decayed copy [fn] of the callable. *)
Record not_fn_result (F : Type) : Type := NotFnResult { fn : F }.

Arguments NotFnResult {F} fn.
Arguments fn {F} n.

Section call_operators.
Context {F A R W : Type} `{Callable F A R W} `{BoolTestable R}.

(** [operator()(Args&&...) &]: [return !fn(std::forward<Args>(args)...);] *)
Definition call_lvalue (g : not_fn_result F) (args : A) (w : W)
  : bool * not_fn_result F * W :=
  let '(r, f', w') := invoke lvalue_call (fn g) args w in
  (lnot r, NotFnResult f', w').

(** [operator()(Args&&...) const&] *)
Definition call_const_lvalue (g : not_fn_result F) (args : A) (w : W)
  : bool * not_fn_result F * W :=
  let '(r, f', w') := invoke const_lvalue_call (fn g) args w in
  (lnot r, NotFnResult f', w').

(** [operator()(Args&&...) &&]:
    [return !std::move(fn)(std::forward<Args>(args)...);] *)
Definition call_rvalue (g : not_fn_result F) (args : A) (w : W)
  : bool * not_fn_result F * W :=
  let '(r, f', w') := invoke rvalue_call (fn g) args w in
  (lnot r, NotFnResult f', w').

(** [operator()(Args&&...) const&&] *)
Definition call_const_rvalue (g : not_fn_result F) (args : A) (w : W)
  : bool * not_fn_result F * W :=
  let '(r, f', w') := invoke const_rvalue_call (fn g) args w in
  (lnot r, NotFnResult f', w').

(** The call operator that the qualifier of the wrapper selects. *)
Definition call (q : qualifier) : not_fn_result F → A → W → bool * not_fn_result F * W :=
  match q with
  | lvalue_call => call_lvalue
  | const_lvalue_call => call_const_lvalue
  | rvalue_call => call_rvalue
  | const_rvalue_call => call_const_rvalue
  end.
End call_operators.

(** [not_fn(F&& fn)]: [return not_fn_result<F>(std::forward<F>(fn));] *)
Definition not_fn {F : Type} (f : F) : not_fn_result F := NotFnResult f.

(** A callable that, besides doing what [f] does, writes every
    invocation it receives (qualifier and arguments) to a log kept in the
    world. *)
Record recording (F : Type) : Type := Recording { recorded : F }.

Arguments Recording {F} recorded.
Arguments recorded {F} r.

Global Instance recording_callable {F A R W : Type} `{Callable F A R W}
  : Callable (recording F) A R (W * list (qualifier * A)) :=
  λ q f a wl,
    let '(r, f', w') := invoke q (recorded f) a wl.1 in
    (r, Recording f', (w', wl.2 ++ [(q, a)])).

End Backport17.

(** ** namespace ceph::_backport_ts *)

Module BackportTS.

(** [operator<<] for a value type: the characters that inserting the
    value appends to a stream in good state with default formatting. *)
Class Insertable (V : Type) := inserted : V → string.

Global Instance string_insertable : Insertable string := id.
Global Instance Z_insertable : Insertable Z := pretty.
Global Instance ascii_insertable : Insertable Ascii.ascii := λ c, String c EmptyString.

(** A value together with the [operator<<] of its type, so that one
    sequence can hold values of several types. *)
Record printable : Type := Printable {
  printable_type : Type;
  printable_insert : Insertable printable_type;
  printable_value : printable_type
}.

Arguments Printable {printable_type printable_insert} printable_value.

Definition printed (p : printable) : string :=
  @inserted _ (printable_insert p) (printable_value p).

(** *** Typed pointers *)

(** The object types that occur in the class: [ostream_type] and the
    type [ostream_type*] of the member [out_stream]. *)
Inductive object_type : Type := ostream_type | ostream_type_pointer.

Record lvalue : Type := LValue { lvalue_type : object_type; lvalue_address : loc }.
Record pointer : Type := Pointer { pointee : object_type; target : loc }.

(** [std::addressof(x)] *)
Definition addressof (x : lvalue) : pointer :=
  Pointer (lvalue_type x) (lvalue_address x).

(** The parameter [ostream_type& s] bound to the stream at [s]. *)
Definition stream_ref (s : loc) : lvalue := LValue ostream_type s.

(** The member [out_stream] of the joiner at [this]: the first member,
    at the address of the object. *)
Definition out_stream_member (this : loc) : lvalue := LValue ostream_type_pointer this.

(** Initialising the member [ostream_type* out_stream] from a pointer:
    only a pointer to [ostream_type] converts. *)
Definition init_out_stream (p : pointer) : outcome loc :=
  match pointee p with
  | ostream_type => Done (target p)
  | ostream_type_pointer => IllFormed NoConversion
  end.

(** *** The joiner and the memory it lives in *)

Record ostream_joiner (DelimT : Type) : Type := Joiner {
  out_stream : loc;
  delim : DelimT;
  first_element : bool
}.

Arguments Joiner {DelimT} out_stream delim first_element.
Arguments out_stream {DelimT} o.
Arguments delim {DelimT} o.
Arguments first_element {DelimT} o.

(** The streams, by address, with the characters written so far, and the
    joiner objects, by address. *)
Record memory (DelimT : Type) : Type := Memory {
  streams : gmap loc string;
  joiners : gmap loc (ostream_joiner DelimT)
}.

Arguments Memory {DelimT} streams joiners.
Arguments streams {DelimT} m.
Arguments joiners {DelimT} m.

(** Computations over a state [S] that may be rejected or undefined. *)
Definition M (S A : Type) : Type := S → outcome (A * S).

Definition ret {S A : Type} (a : A) : M S A := λ s, Done (a, s).

Definition bind {S A B : Type} (c : M S A) (k : A → M S B) : M S B :=
  λ s, match c s with
       | Done (a, s') => k a s'
       | IllFormed d => IllFormed d
       | Undefined => Undefined
       | Thrown e => Thrown e
       end.

Definition lift {S A : Type} (o : outcome A) : M S A :=
  λ s, match o with
       | Done a => Done (a, s)
       | IllFormed d => IllFormed d
       | Undefined => Undefined
       | Thrown e => Thrown e
       end.

Declare Scope joiner_scope.
Delimit Scope joiner_scope with joiner.
Notation "'let*' x := c 'in' k" := (bind c (λ x, k))
  (at level 10, x name, c at level 100, k at level 200) : joiner_scope.
Notation "c ;; k" := (bind c (λ _, k))
  (at level 100, k at level 200, right associativity) : joiner_scope.
Local Open Scope joiner_scope.

Section joiner.
Context {DelimT : Type} `{Insertable DelimT}.

Local Abbreviation St := (memory DelimT).

(** Reading and writing the joiner at [this]. *)
Definition load (this : loc) : M St (ostream_joiner DelimT) :=
  λ m, match joiners m !! this with
       | Some j => Done (j, m)
       | None => Undefined
       end.

Definition store (this : loc) (j : ostream_joiner DelimT) : M St unit :=
  λ m, Done (tt, Memory (streams m) (<[this := j]> (joiners m))).

(** [*p << x]: appends the characters of [x] to the stream [p] points
    to. *)
Definition put {V : Type} `{Insertable V} (p : loc) (x : V) : M St unit :=
  λ m, match streams m !! p with
       | Some content =>
           Done (tt, Memory (<[p := content +:+ inserted x]> (streams m)) (joiners m))
       | None => Undefined
       end.

(** [ostream_joiner(ostream_type& s, const DelimT& delimiter)]
    with [out_stream(std::addressof(out_stream))]. *)
Definition construct_copy (this : loc) (s : loc) (delimiter : DelimT) : M St unit :=
  let* p := lift (init_out_stream (addressof (out_stream_member this))) in
  store this (Joiner p delimiter true).

(** [ostream_joiner(ostream_type& s, DelimT&& delimiter)]
    with [out_stream(std::addressof(s))]. *)
Definition construct_move (this : loc) (s : loc) (delimiter : DelimT) : M St unit :=
  let* p := lift (init_out_stream (addressof (stream_ref s))) in
  store this (Joiner p delimiter true).

(** The operand of a [return] statement in a function returning
    [ostream_joiner&]. *)
Inductive return_operand : Type :=
| deref_this   (* *this *)
| this_ptr.    (* this  *)

(** The reference binds to the joiner [*this] designates; the pointer
    [this] is no joiner and no reference binds to it. *)
Definition return_reference (e : return_operand) (this : loc) : M St loc :=
  match e with
  | deref_this => ret this
  | this_ptr => lift (IllFormed NoConversion)
  end.

(** [operator=(const T& value)] *)
Definition assign {V : Type} `{Insertable V} (this : loc) (value : V) : M St loc :=
  let* j := load this in
  (if negb (first_element j) then put (out_stream j) (delim j) else ret tt);;
  store this (Joiner (out_stream j) (delim j) false);;
  put (out_stream j) value;;
  return_reference deref_this this.

(** [operator*()]: [return *this;] *)
Definition dereference (this : loc) : M St loc := return_reference deref_this this.

(** [operator++()]: [return *this;] *)
Definition pre_increment (this : loc) : M St loc := return_reference deref_this this.

(** [operator++(int)]: [return this;] *)
Definition post_increment (this : loc) : M St loc := return_reference this_ptr this.

(** [make_ostream_joiner(os, delimiter)]: the forwarded delimiter picks
    the constructor, the copying one for an lvalue and the moving one
    for an rvalue.  (A string literal decays to a pointer prvalue.) *)
Definition make_ostream_joiner (this : loc) (os : loc)
    (delimiter : Backport14.value_category * DelimT) : M St unit :=
  match delimiter.1 with
  | Backport14.Lvalue => construct_copy this os delimiter.2
  | Backport14.Rvalue => construct_move this os delimiter.2
  end.

(** Assigning a sequence of values in order: [j = v1; j = v2; ...] *)
Fixpoint assign_all (this : loc) (vs : list printable) : M St unit :=
  match vs with
  | [] => ret tt
  | v :: vs' =>
      @assign _ (printable_insert v) this (printable_value v);;
      assign_all this vs'
  end.

(** The loop of a generic copy into an output iterator:
    [*out = v; ++out;] for each value. *)
Fixpoint copy_to (this : loc) (vs : list printable) : M St loc :=
  match vs with
  | [] => ret this
  | v :: vs' =>
      let* d := dereference this in
      let* a := @assign _ (printable_insert v) d (printable_value v) in
      let* n := pre_increment a in
      copy_to n vs'
  end.

(** The operations of the iterator protocol that assign nothing. *)
Inductive protocol_op : Type := op_dereference | op_pre_increment | op_post_increment.

Definition run_op (o : protocol_op) (this : loc) : M St loc :=
  match o with
  | op_dereference => dereference this
  | op_pre_increment => pre_increment this
  | op_post_increment => post_increment this
  end.

Fixpoint run_ops (os : list protocol_op) (this : loc) : M St loc :=
  match os with
  | [] => ret this
  | o :: os' => let* r := run_op o this in run_ops os' r
  end.
End joiner.

(** What a sequence of values reads as when joined: the first value, then
    the delimiter before each later one. *)
Fixpoint joined_rest {DelimT : Type} `{Insertable DelimT} (d : DelimT) (vs : list printable) : string :=
  match vs with
  | [] => ""
  | v :: vs' => inserted d +:+ printed v +:+ joined_rest d vs'
  end.

Definition joined {DelimT : Type} `{Insertable DelimT} (d : DelimT) (vs : list printable) : string :=
  match vs with
  | [] => ""
  | v :: vs' => printed v +:+ joined_rest d vs'
  end.

End BackportTS.

(** ** Zeroed values *)

Module ZeroInit.
Import Backport14.

(** The types whose value-initialisation is zero-initialisation all the
    way down: scalars and bounded arrays of such types. *)
Fixpoint scalar_array (T : cxx_type) : bool :=
  match T with
  | TInt | TFloat | TPointer _ => true
  | TBoundedArray E _ => scalar_array E
  | TClass _ | TUnboundedArray _ => false
  end.

(** A value all of whose scalars are zero or null. *)
Fixpoint all_zero (v : value) : bool :=
  match v with
  | VInt z => Z.eqb z 0
  | VFloat q => Z.eqb (QArith_base.Qnum (Qcanon.this q)) 0
  | VPtr p => match p with None => true | Some _ => false end
  | VArray vs => forallb all_zero vs
  | VObject _ => false
  end.

End ZeroInit.

(** ** Programs that call a predicate *)

Module Algorithms.
Import Backport17.

(** A [not_fn_result] is itself a callable: its call operators. *)
Global Instance not_fn_result_callable {F A R W : Type}
    `{Callable F A R W} `{BoolTestable R}
  : Callable (not_fn_result F) A bool W :=
  λ q g a w, call q g a w.

(** A sequence of invocations of one function object, each under its own
    qualifier, the object and the world threaded through. *)
Fixpoint invoke_all {F A R W : Type} `{Callable F A R W}
    (f : F) (calls : list (qualifier * A)) (w : W) : list R * F * W :=
  match calls with
  | [] => ([], f, w)
  | c :: rest =>
      let '(r, f', w') := invoke c.1 f c.2 w in
      let '(rs, f'', w'') := invoke_all f' rest w' in
      (r :: rs, f'', w'')
  end.

(** The loop of [std::count_if]: [if (pred(x)) ++n;] for each element
    [x] of a range, the predicate called as an lvalue. *)
Fixpoint count_if {F A R W : Type} `{Callable F A R W} `{BoolTestable R}
    (pred : F) (range : list A) (w : W) : nat * F * W :=
  match range with
  | [] => (0%nat, pred, w)
  | a :: rest =>
      let '(r, pred', w') := invoke lvalue_call pred a w in
      let '(n, pred'', w'') := count_if pred' rest w' in
      (if truth r then S n else n, pred'', w'')
  end.

End Algorithms.

(** * Properties *)

Import Backport14 Backport17 BackportTS ZeroInit Algorithms.
Local Open Scope joiner_scope.

(** ** max *)

Section max_properties.
Context {T : Type} `{Less T}.

Lemma max_less (a b : cref T) :
  less (referent a) (referent b) = true → max a b = b.
Proof. unfold max. by intros ->. Qed.

Lemma max_not_less (a b : cref T) :
  less (referent a) (referent b) = false → max a b = a.
Proof. unfold max. by intros ->. Qed.

(** C2, as amended: [max a b] is the reference [b] when [a < b] and the
    reference [a] otherwise, so operands that compare equal give the
    first one; when [<] is asymmetric the referent of the result is
    less than neither operand. *)
Theorem max_returns_first_unless_less (a b : cref T)
    (less_asymmetric : ∀ x y : T, less x y = true → less y x = false) :
  (less (referent a) (referent b) = true → max a b = b) ∧
  (less (referent a) (referent b) = false → max a b = a) ∧
  (less (referent a) (referent b) = false →
   less (referent b) (referent a) = false → address (max a b) = address a) ∧
  less (referent (max a b)) (referent a) = false ∧
  less (referent (max a b)) (referent b) = false.
Proof.
  split; [apply max_less|]. split; [apply max_not_less|].
  split; [by intros Hab _; rewrite (max_not_less _ _ Hab)|].
  destruct (less (referent a) (referent b)) eqn:Hab.
  - rewrite (max_less _ _ Hab). split.
    + by apply less_asymmetric.
    + destruct (less (referent b) (referent b)) eqn:Hbb; [|done].
      by rewrite (less_asymmetric _ _ Hbb) in Hbb.
  - rewrite (max_not_less _ _ Hab). split; [|done].
    destruct (less (referent a) (referent a)) eqn:Haa; [|done].
    by rewrite (less_asymmetric _ _ Haa) in Haa.
Qed.
End max_properties.

Lemma Z_less_asymmetric (x y : Z) : less x y = true → less y x = false.
Proof. unfold less, Z_less. lia. Qed.

Lemma max_returns_first_unless_less_witness :
  (∀ x y : Z, less x y = true → less y x = false) ∧
  max (CRef 1%positive 5%Z) (CRef 2%positive 5%Z) = CRef 1%positive 5%Z ∧
  max (CRef 1%positive 4%Z) (CRef 2%positive 5%Z) = CRef 2%positive 5%Z.
Proof.
  split; [exact Z_less_asymmetric|].
  split.
  - apply (max_returns_first_unless_less
             (CRef 1%positive 5%Z) (CRef 2%positive 5%Z) Z_less_asymmetric).
    reflexivity.
  - apply (max_returns_first_unless_less
             (CRef 1%positive 4%Z) (CRef 2%positive 5%Z) Z_less_asymmetric).
    reflexivity.
Defined.

(** C2, as stated, fails: two integers that compare equal, held at
    different addresses, and [max] returns the reference to the first,
    not to the second. *)
Lemma max_tie_returns_second_counterexample :
  ¬ (∀ a b : cref Z,
       less (referent a) (referent b) = false →
       less (referent b) (referent a) = false →
       max a b = b).
Proof.
  intros Hclaim.
  specialize (Hclaim (CRef 1%positive 5%Z) (CRef 2%positive 5%Z) eq_refl eq_refl).
  discriminate Hclaim.
Qed.

(** ** not_fn *)

Section not_fn_properties.
Context {F A R W : Type} `{Callable F A R W} `{BoolTestable R}.

(** Each call operator is one invocation of [fn] under its own
    qualifier, with the result negated. *)
Lemma call_invoke (q : qualifier) (g : not_fn_result F) (a : A) (w : W) :
  call q g a w =
  (lnot (invoke q (fn g) a w).1.1,
   NotFnResult (invoke q (fn g) a w).1.2,
   (invoke q (fn g) a w).2).
Proof.
  destruct q; simpl;
    unfold call_lvalue, call_const_lvalue, call_rvalue, call_const_rvalue;
    by destruct (invoke _ (fn g) a w) as [[r f'] w'].
Qed.
End not_fn_properties.

Section not_fn_claim.
Context {F A R W : Type} `{Callable F A R W} `{BoolTestable R}.

(** C6: under every qualifier [q], calling [not_fn f] with [a] returns
    the negation of what [f] returns for [a] under [q], leaves the
    function object and the world as that call of [f] leaves them, and
    a recording [f] has logged exactly the one invocation [(q, a)]. *)
Theorem not_fn_negates_one_invocation
    (q : qualifier) (f : F) (a : A) (w : W) (log : list (qualifier * A)) :
  call q (not_fn f) a w =
    (negb (truth (invoke q f a w).1.1),
     not_fn (invoke q f a w).1.2,
     (invoke q f a w).2) ∧
  call q (not_fn (Recording f)) a (w, log) =
    (negb (truth (invoke q f a w).1.1),
     not_fn (Recording (invoke q f a w).1.2),
     ((invoke q f a w).2, log ++ [(q, a)])).
Proof.
  split; rewrite call_invoke; [done|].
  simpl. unfold invoke at 1 2 3, recording_callable; simpl.
  by destruct (invoke q f a w) as [[r f'] w'].
Qed.
End not_fn_claim.

(** ** make_unique *)

Lemma forward_deduce (a : arg) : forward (deduce a) = a.
Proof. by destruct a as [[] v]. Qed.

Lemma forward_deduce_all (args : list arg) : forward <$> (deduce <$> args) = args.
Proof.
  induction args as [|a args IH]; [done|].
  by rewrite !fmap_cons, forward_deduce, IH.
Qed.

Lemma allocate_fresh (h : gmap loc block) : h !! allocate h = None.
Proof. apply not_elem_of_dom. unfold allocate. apply is_fresh. Qed.

Lemma direct_init_plain (T : cxx_type) (args : list arg) (v : value) :
  direct_init T args = Some v → uniquity T = datum.
Proof. by destruct T. Qed.

Lemma candidates_datum (T : cxx_type) (args : list arg) :
  uniquity T = datum → candidates T args = [make_unique_datum].
Proof.
  intros HT. unfold candidates, overloads.
  rewrite !filter_cons, filter_nil; simpl.
  unfold has_member. rewrite HT. simpl.
  by repeat case_decide.
Qed.

Lemma candidates_verboten (E : cxx_type) (n : N) (args : list arg) :
  candidates (TBoundedArray E n) args = [make_unique_verboten].
Proof.
  unfold candidates, overloads.
  rewrite !filter_cons, filter_nil; simpl.
  by repeat case_decide.
Qed.

Lemma candidates_array (E : cxx_type) (c : value_category) (z : Z) :
  candidates (TUnboundedArray E) [(c, VInt z)] = [make_unique_array].
Proof.
  unfold candidates, overloads.
  rewrite !filter_cons, filter_nil; simpl.
  by unfold has_member.
Qed.

Lemma to_size_t_small (n : N) : (Z.of_N n < 2 ^ size_bits)%Z → to_size_t (Z.of_N n) = n.
Proof.
  intros Hn. unfold to_size_t.
  rewrite Z.mod_small by lia. apply N2Z.id.
Qed.

Lemma make_unique_array_run (E : cxx_type) (c : value_category) (n : N) (v : value)
    (h : gmap loc block) :
  value_init E = Some v →
  (Z.of_N n < 2 ^ size_bits)%Z →
  array_fits E n = true →
  make_unique (TUnboundedArray E) [(c, VInt (Z.of_N n))] h =
    Done (UniquePtr (TUnboundedArray E) (Some (allocate h)),
          <[allocate h := Sequence E (replicate (N.to_nat n) v)]> h).
Proof.
  intros Hv Hn Hfits. unfold make_unique.
  rewrite candidates_array. simpl.
  rewrite to_size_t_small by done.
  unfold make_unique_array_body, new_array. simpl. by rewrite Hv, Hfits.
Qed.

Lemma make_unique_datum_run (T : cxx_type) (args : list arg) (v : value)
    (h : gmap loc block) :
  direct_init T args = Some v →
  make_unique T args h =
    Done (UniquePtr T (Some (allocate h)), <[allocate h := Single T v]> h).
Proof.
  intros Hv. unfold make_unique.
  rewrite (candidates_datum T args (direct_init_plain T args v Hv)).
  unfold make_unique_datum_body.
  by rewrite forward_deduce_all, Hv.
Qed.

Lemma destroy_fresh_single (T : cxx_type) (v : value) (l : loc) (h : gmap loc block) :
  uniquity T = datum →
  h !! l = None →
  unique_ptr_destroy (UniquePtr T (Some l)) (<[l := Single T v]> h) = Done h.
Proof.
  intros HT Hl. unfold unique_ptr_destroy; simpl.
  rewrite lookup_insert_eq.
  destruct T; try discriminate HT;
    by rewrite delete_insert_eq, delete_id.
Qed.



Lemma zero_value_init (E : cxx_type) (z : value) :
  zero E = Some z → value_init E = Some z.
Proof. by destruct E. Qed.

(** C8: for a plain type [T] and arguments [args] from which [T] can be
    built as [v], the arguments reach the constructor with their value
    categories unchanged, [make_unique<T>(args...)] adds to the free
    store exactly one block, the single object [v] of type [T], at an
    address that held nothing, and returns the handle of that address;
    destroying the handle gives back the free store as it was. *)
Theorem make_unique_plain_owns_one_object
    (T : cxx_type) (args : list arg) (v : value) (h : gmap loc block) :
  uniquity T = datum →
  direct_init T args = Some v →
  forward <$> (deduce <$> args) = args ∧
  ∃ l : loc,
    make_unique T args h = Done (UniquePtr T (Some l), <[l := Single T v]> h) ∧
    h !! l = None ∧
    size (<[l := Single T v]> h) = S (size h) ∧
    unique_ptr_destroy (UniquePtr T (Some l)) (<[l := Single T v]> h) = Done h.
Proof.
  intros HT Hv. split; [apply forward_deduce_all|].
  exists (allocate h).
  pose proof (allocate_fresh h) as Hl.
  split; [by apply make_unique_datum_run|].
  split; [done|].
  split; [by apply map_size_insert_None|].
  by apply destroy_fresh_single.
Qed.

Lemma make_unique_plain_owns_one_object_witness :
  uniquity (TClass tracked) = datum ∧
  direct_init (TClass tracked) [(Rvalue, VInt 7)] = Some (VObject [VInt 7; VInt 2]) ∧
  forward <$> (deduce <$> [(Rvalue, VInt 7)]) = [(Rvalue, VInt 7)] ∧
  ∃ l : loc,
    make_unique (TClass tracked) [(Rvalue, VInt 7)] ∅ =
      Done (UniquePtr (TClass tracked) (Some l),
            <[l := Single (TClass tracked) (VObject [VInt 7; VInt 2])]> ∅) ∧
    (∅ : gmap loc block) !! l = None ∧
    size (<[l := Single (TClass tracked) (VObject [VInt 7; VInt 2])]> (∅ : gmap loc block))
      = S (size (∅ : gmap loc block)) ∧
    unique_ptr_destroy (UniquePtr (TClass tracked) (Some l))
      (<[l := Single (TClass tracked) (VObject [VInt 7; VInt 2])]> ∅) = Done ∅.
Proof.
  split; [reflexivity|]. split; [reflexivity|].
  apply (make_unique_plain_owns_one_object
           (TClass tracked) [(Rvalue, VInt 7)] (VObject [VInt 7; VInt 2]) ∅);
    reflexivity.
Defined.



(** C10: for an arithmetic or pointer element type [E], whose zero is
    [z], and a length [n] that fits [std::size_t] and whose [n] elements
    do not exceed the largest array, [make_unique<E[]>(n)] returns, and
    every element at an index below [n] of the sequence it returns
    reads as [z]: the elements are value-initialised, not left
    indeterminate. *)
Theorem make_unique_array_elements_read_zero
    (E : cxx_type) (c : value_category) (n : N) (z : value) (i : nat)
    (h : gmap loc block) :
  zero E = Some z →
  (Z.of_N n < 2 ^ size_bits)%Z →
  array_fits E n = true →
  (i < N.to_nat n)%nat →
  ∃ (l : loc) (vs : list value),
    make_unique (TUnboundedArray E) [(c, VInt (Z.of_N n))] h =
      Done (UniquePtr (TUnboundedArray E) (Some l), <[l := Sequence E vs]> h) ∧
    length vs = N.to_nat n ∧
    vs !! i = Some z.
Proof.
  intros Hz Hn Hfits Hi.
  exists (allocate h), (replicate (N.to_nat n) z).
  split; [by apply make_unique_array_run; [apply zero_value_init| |]|].
  split; [apply length_replicate|].
  by apply lookup_replicate_2.
Qed.

Lemma make_unique_array_elements_read_zero_witness :
  zero (TPointer TInt) = Some (VPtr None) ∧
  (Z.of_N 4 < 2 ^ size_bits)%Z ∧
  array_fits (TPointer TInt) 4 = true ∧
  (2 < N.to_nat 4)%nat ∧
  ∃ (l : loc) (vs : list value),
    make_unique (TUnboundedArray (TPointer TInt)) [(Lvalue, VInt (Z.of_N 4))] ∅ =
      Done (UniquePtr (TUnboundedArray (TPointer TInt)) (Some l),
            <[l := Sequence (TPointer TInt) vs]> ∅) ∧
    length vs = N.to_nat 4 ∧
    vs !! 2%nat = Some (VPtr None).
Proof.
  split; [reflexivity|]. split; [reflexivity|]. split; [reflexivity|].
  split; [vm_compute; lia|].
  apply (make_unique_array_elements_read_zero
           (TPointer TInt) Lvalue 4 (VPtr None) 2 ∅);
    [reflexivity | reflexivity | reflexivity | vm_compute; lia].
Defined.

(** C7: for every bounded array type [E[N]] and every argument list, the
    only candidate of the call [make_unique<E[N]>(...)] is the deleted
    overload, so the call is rejected by the compiler and yields no
    value. *)
Theorem make_unique_bounded_array_rejected
    (E : cxx_type) (n : N) (args : list arg) (h : gmap loc block) :
  uniquity (TBoundedArray E n) = verboten ∧
  candidates (TBoundedArray E n) args = [make_unique_verboten] ∧
  make_unique (TBoundedArray E n) args h = IllFormed DeletedFunction ∧
  is_done (make_unique (TBoundedArray E n) args h) = false.
Proof.
  split; [done|]. split; [apply candidates_verboten|].
  unfold make_unique. by rewrite candidates_verboten.
Qed.

(** ** ostream_joiner *)

Lemma append_empty_r (s : string) : s +:+ "" = s.
Proof.
  induction s as [|c s IH]; [done|].
  change (String c (s +:+ "") = String c s). by rewrite IH.
Qed.

Lemma append_assoc (s t u : string) : (s +:+ t) +:+ u = s +:+ t +:+ u.
Proof.
  induction s as [|c s IH]; [done|].
  change (String c ((s +:+ t) +:+ u) = String c (s +:+ t +:+ u)). by rewrite IH.
Qed.

Section joiner_properties.
Context {DelimT : Type} `{Insertable DelimT}.

Implicit Types (m : memory DelimT) (j : ostream_joiner DelimT).
Implicit Types (this s : loc) (vs : list printable).

(** The copying constructor never yields a joiner. *)
Lemma construct_copy_run this s (d : DelimT) m :
  construct_copy this s d m = IllFormed NoConversion.
Proof. reflexivity. Qed.

(** The moving constructor binds the joiner at [this] to [s]. *)
Lemma construct_move_run this s (d : DelimT) m :
  construct_move this s d m =
    Done (tt, Memory (streams m) (<[this := Joiner s d true]> (joiners m))).
Proof. reflexivity. Qed.

Lemma dereference_run this m : dereference this m = Done (this, m).
Proof. reflexivity. Qed.

Lemma pre_increment_run this m : pre_increment this m = Done (this, m).
Proof. reflexivity. Qed.

Lemma post_increment_run this m : post_increment this m = IllFormed NoConversion.
Proof. reflexivity. Qed.

(** One assignment: the delimiter unless the flag is still set, then
    the value, to the stream the joiner points to and to no other. *)
Lemma assign_run {V : Type} `{Insertable V} this (value : V) m j content :
  joiners m !! this = Some j →
  streams m !! out_stream j = Some content →
  assign this value m =
    Done (this,
          Memory
            (<[out_stream j :=
                 content +:+ (if first_element j then "" else inserted (delim j))
                         +:+ inserted value]> (streams m))
            (<[this := Joiner (out_stream j) (delim j) false]> (joiners m))).
Proof.
  intros Hj Hs. unfold assign, bind, load. rewrite Hj.
  destruct (first_element j); simpl.
  - unfold put; simpl. by rewrite Hs.
  - unfold put at 1; simpl. rewrite Hs. simpl.
    unfold put; simpl. rewrite lookup_insert_eq.
    by rewrite insert_insert_eq, append_assoc.
Qed.

(** A run of assignments appends the joined values, led by the
    delimiter when an earlier value was already written. *)
Lemma assign_all_run vs : ∀ this m j content,
  joiners m !! this = Some j →
  streams m !! out_stream j = Some content →
  ∃ m',
    assign_all this vs m = Done (tt, m') ∧
    streams m' =
      <[out_stream j :=
          content +:+ (if first_element j then joined (delim j) vs
                       else joined_rest (delim j) vs)]> (streams m) ∧
    joiners m' =
      <[this := Joiner (out_stream j) (delim j)
                  (match vs with [] => first_element j | _ => false end)]>
        (joiners m).
Proof.
  induction vs as [|v vs IH]; intros this m j content Hj Hs.
  - exists m. split; [done|]. split.
    + replace (if first_element j then _ else _) with "" by by destruct (first_element j).
      by rewrite append_empty_r, insert_id.
    + destruct j. by rewrite insert_id.
  - simpl. unfold bind.
    rewrite (@assign_run _ (printable_insert v) this (printable_value v) m j content Hj Hs).
    set (m1 := Memory _ _).
    destruct (IH this m1 (Joiner (out_stream j) (delim j) false)
                (content +:+ (if first_element j then "" else inserted (delim j))
                         +:+ @inserted _ (printable_insert v) (printable_value v)))
      as (m' & Hrun & Hstreams & Hjoiners).
    { subst m1; simpl. apply lookup_insert_eq. }
    { subst m1; simpl. apply lookup_insert_eq. }
    exists m'. split; [done|]. split.
    + rewrite Hstreams. subst m1; simpl. rewrite insert_insert_eq.
      f_equal. unfold printed.
      destruct (first_element j); simpl; by rewrite !append_assoc.
    + rewrite Hjoiners. subst m1; simpl. rewrite insert_insert_eq.
      by destruct vs.
Qed.

(** The operations that assign nothing leave the memory alone. *)
Lemma run_ops_memory (os : list protocol_op) : ∀ this m r m',
  run_ops os this m = Done (r, m') → r = this ∧ m' = m.
Proof.
  induction os as [|o os IH]; intros this m r m' Hrun.
  - by injection Hrun as <- <-.
  - simpl in Hrun. unfold bind in Hrun.
    destruct o; simpl in Hrun; try discriminate Hrun;
      rewrite ?dereference_run, ?pre_increment_run in Hrun;
      by apply IH in Hrun.
Qed.

Lemma run_ops_done (os : list protocol_op) : ∀ this m,
  op_post_increment ∉ os → run_ops os this m = Done (this, m).
Proof.
  induction os as [|o os IH]; intros this m Hos; [done|].
  apply not_elem_of_cons in Hos as [Ho Hos].
  simpl. unfold bind.
  destruct o; [| |done]; simpl;
    rewrite ?dereference_run, ?pre_increment_run; by apply IH.
Qed.

Lemma assign_returns_this {V : Type} `{Insertable V} this (value : V) m r m' :
  assign this value m = Done (r, m') → r = this.
Proof.
  unfold assign, bind. intros Hrun.
  destruct (load this m) as [[j m1]| | |]; [|done..].
  destruct ((if negb (first_element j) then put (out_stream j) (delim j) else ret ()) m1)
    as [[[] m2]| | |]; [|done..].
  simpl in Hrun.
  destruct (put (out_stream j) value _) as [[[] m3]| | |]; [|done..].
  by injection Hrun as <- _.
Qed.

(** Dereference, assign, advance is one assignment. *)
Lemma copy_to_assign_all vs : ∀ this m,
  copy_to this vs m =
    match assign_all this vs m with
    | Done (_, m') => Done (this, m')
    | IllFormed d => IllFormed d
    | Undefined => Undefined
    | Thrown e => Thrown e
    end.
Proof.
  induction vs as [|v vs IH]; intros this m; [done|].
  simpl. unfold bind. rewrite dereference_run.
  destruct (assign this (printable_value v) m) as [[r m1]| | |] eqn:Hassign; [|done..].
  apply assign_returns_this in Hassign as ->.
  rewrite pre_increment_run. apply IH.
Qed.
End joiner_properties.

(** C1, which the code departs from: the constructor taking the delimiter by
    const reference initialises [out_stream] with the address of its own
    member [out_stream], a pointer to [ostream_type*] at the joiner's
    address, not with the address of the stream [s]; no [ostream_type*]
    is initialised from it, so that constructor, and
    [make_ostream_joiner] on an lvalue delimiter, yield no joiner, and a
    value assigned afterwards never reaches [s].  After the constructor
    taking an rvalue the same assignment appends the value to [s]. *)
Theorem construct_copy_not_bound_to_stream
    (DelimT : Type) (I : Insertable DelimT) (V : Type) (IV : Insertable V)
    (this s : loc) (d : DelimT) (v : V) (m : memory DelimT) (content : string) :
  streams m !! s = Some content →
  addressof (out_stream_member this) = Pointer ostream_type_pointer this ∧
  addressof (out_stream_member this) ≠ addressof (stream_ref s) ∧
  construct_copy this s d m = IllFormed NoConversion ∧
  make_ostream_joiner this s (Lvalue, d) m = IllFormed NoConversion ∧
  (construct_copy this s d;; assign this v) m = IllFormed NoConversion ∧
  ∃ m' : memory DelimT,
    (construct_move this s d;; assign this v) m = Done (this, m') ∧
    streams m' = <[s := content +:+ inserted v]> (streams m).
Proof.
  intros Hs. do 5 (split; [done|]).
  unfold bind. rewrite construct_move_run.
  erewrite assign_run; simpl; [|apply lookup_insert_eq|exact Hs].
  by eexists.
Qed.

Lemma construct_copy_not_bound_to_stream_witness :
  streams (Memory {[1%positive := "log:"]} ∅ : memory string) !! 1%positive = Some "log:" ∧
  (construct_copy 2%positive 1%positive ",";; assign 2%positive 42%Z)
    (Memory {[1%positive := "log:"]} ∅) = IllFormed NoConversion ∧
  ∃ m' : memory string,
    (construct_move 2%positive 1%positive ",";; assign 2%positive 42%Z)
      (Memory {[1%positive := "log:"]} ∅) = Done (2%positive, m') ∧
    streams m' = <[1%positive := "log:" +:+ inserted 42%Z]> {[1%positive := "log:"]}.
Proof.
  assert (Hs : streams (Memory {[1%positive := "log:"]} ∅ : memory string) !! 1%positive
               = Some "log:") by reflexivity.
  split; [exact Hs|].
  apply (construct_copy_not_bound_to_stream string _ Z _
           2%positive 1%positive "," 42%Z (Memory {[1%positive := "log:"]} ∅) "log:" Hs).
Defined.

(** C3, which the code departs from: post-increment returns the pointer [this]
    where a reference to the joiner is required and is rejected, so
    dereference, assign, post-increment on a live joiner is rejected
    too; dereference and pre-increment return the joiner at [this] and
    change nothing, and dereference, assign, pre-increment is the single
    assignment. *)
Theorem post_increment_returns_pointer
    (DelimT : Type) (I : Insertable DelimT) (V : Type) (IV : Insertable V)
    (this : loc) (v : V) (m : memory DelimT) (j : ostream_joiner DelimT)
    (content : string) :
  joiners m !! this = Some j →
  streams m !! out_stream j = Some content →
  post_increment this m = IllFormed NoConversion ∧
  dereference this m = Done (this, m) ∧
  pre_increment this m = Done (this, m) ∧
  (let* r := dereference this in let* a := assign r v in pre_increment a) m
    = assign this v m ∧
  (let* r := dereference this in let* a := assign r v in post_increment a) m
    = IllFormed NoConversion.
Proof.
  intros Hj Hs. do 3 (split; [done|]).
  unfold bind. rewrite dereference_run.
  by rewrite (assign_run this v m j content Hj Hs).
Qed.

Lemma post_increment_returns_pointer_witness :
  joiners (Memory {[1%positive := ""]} {[2%positive := Joiner 1%positive "," true]})
    !! 2%positive = Some (Joiner 1%positive "," true) ∧
  streams (Memory {[1%positive := ""]} {[2%positive := Joiner 1%positive "," true]})
    !! 1%positive = Some "" ∧
  post_increment 2%positive
    (Memory {[1%positive := ""]} {[2%positive := Joiner 1%positive "," true]})
    = IllFormed NoConversion.
Proof.
  assert (Hj : joiners (Memory {[1%positive := ""]} {[2%positive := Joiner 1%positive "," true]})
                 !! 2%positive = Some (Joiner 1%positive "," true)) by reflexivity.
  assert (Hs : streams (Memory {[1%positive := ""]} {[2%positive := Joiner 1%positive "," true]})
                 !! out_stream (Joiner 1%positive "," true) = Some "") by reflexivity.
  split; [exact Hj|]. split; [exact Hs|].
  apply (proj1 (post_increment_returns_pointer string _ Z _ 2%positive 7%Z
                  (Memory {[1%positive := ""]} {[2%positive := Joiner 1%positive "," true]})
                  (Joiner 1%positive "," true) "" Hj Hs)).
Defined.

(** C5: a joiner constructed over the stream [s] with delimiter [d] and
    then assigned the values [vs] in order has appended to [s] the first
    value, then the delimiter before each later value, and has written
    to no other stream; with delimiter "," and the values 1, 2, 3 on an
    empty stream the content is "1,2,3". *)
Theorem joiner_delimits_all_but_first
    (DelimT : Type) (I : Insertable DelimT) (m : memory DelimT)
    (this s : loc) (d : DelimT) (content : string) (vs : list printable) :
  streams m !! s = Some content →
  (∃ m' : memory DelimT,
     (construct_move this s d;; assign_all this vs) m = Done (tt, m') ∧
     streams m' = <[s := content +:+ joined d vs]> (streams m)) ∧
  joined "," [Printable 1%Z; Printable 2%Z; Printable 3%Z] = "1,2,3" ∧
  (construct_move 2%positive 1%positive ",";;
   assign_all 2%positive [Printable 1%Z; Printable 2%Z; Printable 3%Z])
    (Memory {[1%positive := ""]} ∅) =
  Done (tt, Memory {[1%positive := "1,2,3"]} {[2%positive := Joiner 1%positive "," false]}).
Proof.
  intros Hs. split; [|split; vm_compute; reflexivity].
  unfold bind at 1. rewrite construct_move_run.
  destruct (assign_all_run vs this
              (Memory (streams m) (<[this := Joiner s d true]> (joiners m)))
              (Joiner s d true) content)
    as (m' & Hrun & Hstreams & _); simpl; [apply lookup_insert_eq | done |].
  exists m'. by split.
Qed.

Lemma joiner_delimits_all_but_first_witness :
  streams (Memory {[7%positive := "x="]} ∅ : memory string) !! 7%positive = Some "x=" ∧
  ∃ m' : memory string,
    (construct_move 9%positive 7%positive "; ";;
     assign_all 9%positive [Printable 10%Z; Printable "b"; Printable (-3)%Z])
      (Memory {[7%positive := "x="]} ∅) = Done (tt, m') ∧
    streams m' =
      <[7%positive := "x=" +:+ joined "; " [Printable 10%Z; Printable "b"; Printable (-3)%Z]]>
        {[7%positive := "x="]}.
Proof.
  assert (Hs : streams (Memory {[7%positive := "x="]} ∅ : memory string) !! 7%positive
               = Some "x=") by reflexivity.
  split; [exact Hs|].
  apply (proj1 (joiner_delimits_all_but_first string _
                  (Memory {[7%positive := "x="]} ∅) 9%positive 7%positive "; " "x="
                  [Printable 10%Z; Printable "b"; Printable (-3)%Z] Hs)).
Defined.

(** C9: a joiner constructed over [s] and then only dereferenced and
    pre-incremented, in any order and number, leaves every stream as it
    was; and whichever constructor and operations a program without
    assignment uses, it never ends with a stream changed. *)
Theorem unassigned_joiner_writes_nothing
    (DelimT : Type) (I : Insertable DelimT) (m : memory DelimT)
    (this s : loc) (d : DelimT) (ops : list protocol_op) :
  op_post_increment ∉ ops →
  (∃ m' : memory DelimT,
     (construct_move this s d;; run_ops ops this) m = Done (this, m') ∧
     streams m' = streams m) ∧
  (∀ (c : value_category) (ops' : list protocol_op),
     match (make_ostream_joiner this s (c, d);; run_ops ops' this) m with
     | Done (_, m') => streams m' = streams m
     | _ => True
     end).
Proof.
  intros Hops. split.
  - unfold bind. rewrite construct_move_run.
    rewrite run_ops_done by done. by eexists.
  - intros c ops'. unfold bind.
    destruct c; simpl; [done|].
    destruct (run_ops ops' this _) as [[r m']| | |] eqn:Hrun; [|done..].
    by apply run_ops_memory in Hrun as [_ ->].
Qed.

Lemma unassigned_joiner_writes_nothing_witness :
  (op_post_increment ∉ [op_dereference; op_pre_increment; op_dereference]) ∧
  ∃ m' : memory string,
    (construct_move 2%positive 1%positive ",";;
     run_ops [op_dereference; op_pre_increment; op_dereference] 2%positive)
      (Memory {[1%positive := "abc"]} ∅) = Done (2%positive, m') ∧
    streams m' = streams (Memory {[1%positive := "abc"]} ∅ : memory string).
Proof.
  assert (Hops : op_post_increment ∉ [op_dereference; op_pre_increment; op_dereference]).
  { intros Hin. repeat (apply elem_of_cons in Hin as [Hin|Hin]; [discriminate Hin|]).
    by apply elem_of_nil in Hin. }
  split; [exact Hops|].
  apply (proj1 (unassigned_joiner_writes_nothing string _
                  (Memory {[1%positive := "abc"]} ∅) 2%positive 1%positive ","
                  [op_dereference; op_pre_increment; op_dereference] Hops)).
Defined.

(** * Further properties *)

(** ** max among several operands *)

Section max_order.
Context {T : Type} `{Less T}.

(** X1: when [<] is a strict weak order (asymmetric, transitive, and
    so is its complement), both groupings of three operands under [max]
    return the same reference, and that reference is the first of the
    greatest operands: it is one of the three, none of the three is
    greater than it, and every operand before it is less than it. *)
Theorem max_associative (a b c : cref T)
    (less_asymmetric : ∀ x y : T, less x y = true → less y x = false)
    (less_transitive :
       ∀ x y z : T, less x y = true → less y z = true → less x z = true)
    (not_less_transitive :
       ∀ x y z : T, less x y = false → less y z = false → less x z = false) :
  max (max a b) c = max a (max b c) ∧
  ((max (max a b) c = a ∧
    less (referent a) (referent b) = false ∧ less (referent a) (referent c) = false) ∨
   (max (max a b) c = b ∧
    less (referent a) (referent b) = true ∧ less (referent b) (referent c) = false) ∨
   (max (max a b) c = c ∧
    less (referent a) (referent c) = true ∧ less (referent b) (referent c) = true)) ∧
  less (referent (max (max a b) c)) (referent a) = false ∧
  less (referent (max (max a b) c)) (referent b) = false ∧
  less (referent (max (max a b) c)) (referent c) = false.
Proof.
  assert (less_irreflexive : ∀ x : T, less x x = false).
  { intros x. destruct (less x x) eqn:Hx; [|done].
    by rewrite (less_asymmetric _ _ Hx) in Hx. }
  destruct (less (referent a) (referent b)) eqn:Hab.
  - rewrite (max_less a b Hab).
    destruct (less (referent b) (referent c)) eqn:Hbc.
    + pose proof (less_transitive _ _ _ Hab Hbc) as Hac.
      rewrite (max_less b c Hbc), (max_less a c Hac).
      split; [done|]. split; [by right; right|].
      by rewrite (less_asymmetric _ _ Hac), (less_asymmetric _ _ Hbc), less_irreflexive.
    + rewrite (max_not_less b c Hbc), (max_less a b Hab).
      split; [done|]. split; [by right; left|].
      by rewrite (less_asymmetric _ _ Hab), less_irreflexive.
  - rewrite (max_not_less a b Hab).
    destruct (less (referent b) (referent c)) eqn:Hbc.
    + rewrite (max_less b c Hbc). split; [done|].
      destruct (less (referent a) (referent c)) eqn:Hac.
      * rewrite (max_less a c Hac). split; [by right; right|].
        by rewrite (less_asymmetric _ _ Hac), (less_asymmetric _ _ Hbc), less_irreflexive.
      * rewrite (max_not_less a c Hac). split; [by left|].
        by rewrite less_irreflexive.
    + pose proof (not_less_transitive _ _ _ Hab Hbc) as Hac.
      rewrite (max_not_less b c Hbc), (max_not_less a b Hab), (max_not_less a c Hac).
      split; [done|]. split; [by left|].
      by rewrite less_irreflexive.
Qed.

(** X2: when [<] is asymmetric and operands that are not ordered are
    equal (a total order), swapping the operands of [max] never changes
    the value returned, and changes the reference returned only on a
    tie, where each call returns its own first operand. *)
Theorem max_swap (a b : cref T)
    (less_asymmetric : ∀ x y : T, less x y = true → less y x = false)
    (less_total : ∀ x y : T, less x y = false → less y x = false → x = y) :
  referent (max a b) = referent (max b a) ∧
  (less (referent a) (referent b) = true ∨ less (referent b) (referent a) = true →
   max a b = max b a) ∧
  (less (referent a) (referent b) = false → less (referent b) (referent a) = false →
   max a b = a ∧ max b a = b).
Proof.
  destruct (less (referent a) (referent b)) eqn:Hab.
  - pose proof (less_asymmetric _ _ Hab) as Hba.
    rewrite (max_less a b Hab), (max_not_less b a Hba).
    split; [done|]. split; [done|]. intros Hf. discriminate Hf.
  - rewrite (max_not_less a b Hab).
    destruct (less (referent b) (referent a)) eqn:Hba.
    + rewrite (max_less b a Hba).
      split; [done|]. split; [done|]. intros _ Hf. discriminate Hf.
    + rewrite (max_not_less b a Hba).
      split; [by apply less_total|]. split; [|done].
      by intros [Hf|Hf]; discriminate Hf.
Qed.
End max_order.

Lemma Z_less_transitive (x y z : Z) :
  less x y = true → less y z = true → less x z = true.
Proof. unfold less, Z_less. lia. Qed.

Lemma Z_not_less_transitive (x y z : Z) :
  less x y = false → less y z = false → less x z = false.
Proof. unfold less, Z_less. lia. Qed.

Lemma Z_less_total (x y : Z) : less x y = false → less y x = false → x = y.
Proof. unfold less, Z_less. lia. Qed.

Lemma max_associative_witness :
  (∀ x y : Z, less x y = true → less y x = false) ∧
  (∀ x y z : Z, less x y = true → less y z = true → less x z = true) ∧
  (∀ x y z : Z, less x y = false → less y z = false → less x z = false) ∧
  max (max (CRef 1%positive 7%Z) (CRef 2%positive 9%Z)) (CRef 3%positive 9%Z) =
  max (CRef 1%positive 7%Z) (max (CRef 2%positive 9%Z) (CRef 3%positive 9%Z)).
Proof.
  split; [exact Z_less_asymmetric|].
  split; [exact Z_less_transitive|]. split; [exact Z_not_less_transitive|].
  apply (proj1 (max_associative
                  (CRef 1%positive 7%Z) (CRef 2%positive 9%Z) (CRef 3%positive 9%Z)
                  Z_less_asymmetric Z_less_transitive Z_not_less_transitive)).
Defined.

Lemma max_swap_witness :
  (∀ x y : Z, less x y = true → less y x = false) ∧
  (∀ x y : Z, less x y = false → less y x = false → x = y) ∧
  referent (max (CRef 1%positive 4%Z) (CRef 2%positive 4%Z)) =
  referent (max (CRef 2%positive 4%Z) (CRef 1%positive 4%Z)).
Proof.
  split; [exact Z_less_asymmetric|]. split; [exact Z_less_total|].
  apply (proj1 (max_swap (CRef 1%positive 4%Z) (CRef 2%positive 4%Z)
                  Z_less_asymmetric Z_less_total)).
Defined.

(** ** Overload resolution and the free store of make_unique *)

Lemma candidates_shape (T : cxx_type) (args : list arg) :
  candidates T args =
    match uniquity T with
    | datum => [make_unique_datum]
    | array => match size_argument args with Some _ => [make_unique_array] | None => [] end
    | verboten => [make_unique_verboten]
    end.
Proof.
  destruct (uniquity T) eqn:HT.
  - by apply candidates_datum.
  - destruct T; try discriminate HT.
    unfold candidates, overloads.
    rewrite !filter_cons, filter_nil; simpl. unfold has_member; simpl.
    destruct (size_argument args) as [n|]; simpl; by repeat case_decide.
  - destruct T; try discriminate HT. apply candidates_verboten.
Qed.

Lemma make_unique_done (T : cxx_type) (args : list arg) (h : gmap loc block)
    (p : unique_ptr) (h' : gmap loc block) :
  make_unique T args h = Done (p, h') →
  p = UniquePtr T (Some (allocate h)) ∧
  ∃ b : block, h' = <[allocate h := b]> h ∧
    match uniquity T with
    | datum => ∃ v, b = Single T v
    | _ => ∃ vs, b = Sequence (remove_extent_t T) vs
    end.
Proof.
  unfold make_unique. rewrite candidates_shape.
  destruct (uniquity T) eqn:HT.
  - unfold make_unique_datum_body.
    destruct (direct_init T _) as [v|]; [|done].
    intros [= <- <-]. split; [done|]. eexists. split; [done|]. by eexists.
  - destruct (size_argument args) as [n|]; [|done].
    unfold make_unique_array_body, new_array.
    destruct (value_init _) as [v|]; [|done].
    destruct (array_fits _ n); [|done].
    intros [= <- <-]. split; [done|]. eexists. split; [done|]. by eexists.
  - done.
Qed.

(** X3: overload resolution among the three [make_unique] templates
    never finds two candidates: whatever the type and the arguments, at
    most one overload is viable and no call is ambiguous. *)
Theorem make_unique_never_ambiguous
    (T : cxx_type) (args : list arg) (h : gmap loc block) :
  (length (candidates T args) ≤ 1)%nat ∧
  make_unique T args h ≠ IllFormed AmbiguousCall.
Proof.
  unfold make_unique. rewrite candidates_shape.
  destruct (uniquity T).
  - split; [done|]. unfold make_unique_datum_body.
    by destruct (direct_init T _).
  - destruct (size_argument args) as [n|]; (split; [simpl; lia|]); [|done].
    unfold make_unique_array_body, new_array.
    destruct (value_init _); [|done]. by destruct (array_fits _ n).
  - by split.
Qed.

(** X4: a call of [make_unique] that returns leaves every block that was
    live before it live and unchanged: it adds one block, at the address
    the returned handle holds, which was free, and touches nothing
    else. *)
Theorem make_unique_preserves_live_blocks
    (T : cxx_type) (args : list arg) (h h' : gmap loc block) (p : unique_ptr) :
  make_unique T args h = Done (p, h') →
  ∃ l : loc,
    get p = Some l ∧
    h !! l = None ∧
    is_Some (h' !! l) ∧
    size h' = S (size h) ∧
    ∀ (l' : loc) (b : block), h !! l' = Some b → h' !! l' = Some b.
Proof.
  intros Hrun. apply make_unique_done in Hrun as (-> & b & -> & _).
  exists (allocate h). pose proof (allocate_fresh h) as Hl.
  split; [done|]. split; [done|].
  split; [by rewrite lookup_insert_eq|].
  split; [by apply map_size_insert_None|].
  intros l' b' Hl'. rewrite lookup_insert_ne; [done|].
  intros <-. by rewrite Hl in Hl'.
Qed.

Lemma make_unique_preserves_live_blocks_witness :
  make_unique TInt [(Rvalue, VInt 5)] {[1%positive := Single TFloat (VFloat 0)]} =
    Done (UniquePtr TInt (Some 2%positive),
          <[2%positive := Single TInt (VInt 5)]> {[1%positive := Single TFloat (VFloat 0)]}) ∧
  ∃ l : loc,
    get (UniquePtr TInt (Some 2%positive)) = Some l ∧
    ({[1%positive := Single TFloat (VFloat 0)]} : gmap loc block) !! l = None ∧
    is_Some ((<[2%positive := Single TInt (VInt 5)]>
               {[1%positive := Single TFloat (VFloat 0)]} : gmap loc block) !! l) ∧
    size (<[2%positive := Single TInt (VInt 5)]>
            ({[1%positive := Single TFloat (VFloat 0)]} : gmap loc block)) =
      S (size ({[1%positive := Single TFloat (VFloat 0)]} : gmap loc block)) ∧
    ∀ (l' : loc) (b : block),
      ({[1%positive := Single TFloat (VFloat 0)]} : gmap loc block) !! l' = Some b →
      (<[2%positive := Single TInt (VInt 5)]>
         {[1%positive := Single TFloat (VFloat 0)]} : gmap loc block) !! l' = Some b.
Proof.
  assert (Hrun :
    make_unique TInt [(Rvalue, VInt 5)] {[1%positive := Single TFloat (VFloat 0)]} =
      Done (UniquePtr TInt (Some 2%positive),
            <[2%positive := Single TInt (VInt 5)]> {[1%positive := Single TFloat (VFloat 0)]}))
    by (vm_compute; reflexivity).
  split; [exact Hrun|].
  apply (make_unique_preserves_live_blocks TInt [(Rvalue, VInt 5)] _ _ _ Hrun).
Defined.

(** X5: two calls of [make_unique] one after the other return handles
    to different addresses, and the block of the first handle is still
    live, unchanged, after the second call: no two handles own the same
    object. *)
Theorem make_unique_handles_distinct
    (T1 T2 : cxx_type) (args1 args2 : list arg)
    (h h1 h2 : gmap loc block) (p1 p2 : unique_ptr) :
  make_unique T1 args1 h = Done (p1, h1) →
  make_unique T2 args2 h1 = Done (p2, h2) →
  ∃ l1 l2 : loc,
    get p1 = Some l1 ∧ get p2 = Some l2 ∧ l1 ≠ l2 ∧
    is_Some (h1 !! l1) ∧ h2 !! l1 = h1 !! l1.
Proof.
  intros Hrun1 Hrun2.
  apply make_unique_done in Hrun1 as (-> & b1 & -> & _).
  apply make_unique_done in Hrun2 as (-> & b2 & -> & _).
  eexists _, _. split; [done|]. split; [done|].
  assert (Hne : allocate h ≠ allocate (<[allocate h := b1]> h)).
  { intros Heq.
    pose proof (allocate_fresh (<[allocate h := b1]> h)) as Hl.
    rewrite <- Heq in Hl. by rewrite lookup_insert_eq in Hl. }
  split; [done|].
  split; [by rewrite lookup_insert_eq|].
  by rewrite lookup_insert_ne.
Qed.

Lemma make_unique_handles_distinct_witness :
  make_unique (TClass tracked) [] ∅ =
    Done (UniquePtr (TClass tracked) (Some 1%positive),
          {[1%positive := Single (TClass tracked) (VObject [VInt 0; VInt 0])]}) ∧
  make_unique (TUnboundedArray TInt) [(Rvalue, VInt 2)]
    {[1%positive := Single (TClass tracked) (VObject [VInt 0; VInt 0])]} =
    Done (UniquePtr (TUnboundedArray TInt) (Some 2%positive),
          <[2%positive := Sequence TInt [VInt 0; VInt 0]]>
            {[1%positive := Single (TClass tracked) (VObject [VInt 0; VInt 0])]}) ∧
  ∃ l1 l2 : loc,
    get (UniquePtr (TClass tracked) (Some 1%positive)) = Some l1 ∧
    get (UniquePtr (TUnboundedArray TInt) (Some 2%positive)) = Some l2 ∧
    l1 ≠ l2 ∧
    is_Some (({[1%positive := Single (TClass tracked) (VObject [VInt 0; VInt 0])]}
                : gmap loc block) !! l1) ∧
    (<[2%positive := Sequence TInt [VInt 0; VInt 0]]>
       {[1%positive := Single (TClass tracked) (VObject [VInt 0; VInt 0])]}
       : gmap loc block) !! l1 =
    ({[1%positive := Single (TClass tracked) (VObject [VInt 0; VInt 0])]}
       : gmap loc block) !! l1.
Proof.
  assert (Hrun1 :
    make_unique (TClass tracked) [] ∅ =
      Done (UniquePtr (TClass tracked) (Some 1%positive),
            {[1%positive := Single (TClass tracked) (VObject [VInt 0; VInt 0])]}))
    by (vm_compute; reflexivity).
  assert (Hrun2 :
    make_unique (TUnboundedArray TInt) [(Rvalue, VInt 2)]
      {[1%positive := Single (TClass tracked) (VObject [VInt 0; VInt 0])]} =
      Done (UniquePtr (TUnboundedArray TInt) (Some 2%positive),
            <[2%positive := Sequence TInt [VInt 0; VInt 0]]>
              {[1%positive := Single (TClass tracked) (VObject [VInt 0; VInt 0])]}))
    by (vm_compute; reflexivity).
  split; [exact Hrun1|]. split; [exact Hrun2|].
  apply (make_unique_handles_distinct _ _ _ _ _ _ _ _ _ Hrun1 Hrun2).
Defined.

(** X6: [make_unique<E[]>] takes exactly one argument, the length: a
    call with none, or with two or more, finds no viable overload and is
    rejected, whatever the element type. *)
Theorem make_unique_array_needs_one_argument
    (E : cxx_type) (args : list arg) (h : gmap loc block) :
  length args ≠ 1%nat →
  candidates (TUnboundedArray E) args = [] ∧
  make_unique (TUnboundedArray E) args h = IllFormed NoMatchingFunction.
Proof.
  intros Hlen.
  assert (Hsize : size_argument args = None).
  { destruct args as [|[c v] [|a args]]; [done| |by destruct v]. by destruct Hlen. }
  unfold make_unique. rewrite candidates_shape. simpl. by rewrite Hsize.
Qed.

Lemma make_unique_array_needs_one_argument_witness :
  length [(Rvalue, VInt 2); (Rvalue, VInt 3)] ≠ 1%nat ∧
  candidates (TUnboundedArray TInt) [(Rvalue, VInt 2); (Rvalue, VInt 3)] = [] ∧
  make_unique (TUnboundedArray TInt) [(Rvalue, VInt 2); (Rvalue, VInt 3)] ∅ =
    IllFormed NoMatchingFunction.
Proof.
  assert (Hlen : length [(Rvalue, VInt 2); (Rvalue, VInt 3)] ≠ 1%nat) by (simpl; lia).
  split; [exact Hlen|].
  apply (make_unique_array_needs_one_argument TInt
           [(Rvalue, VInt 2); (Rvalue, VInt 3)] ∅ Hlen).
Defined.

Lemma forallb_replicate {A : Type} (f : A → bool) (n : nat) (x : A) :
  f x = true → forallb f (replicate n x) = true.
Proof. intros Hx. induction n as [|n IH]; simpl; [done|]. by rewrite Hx, IH. Qed.

Lemma scalar_array_value_init (E : cxx_type) :
  scalar_array E = true → ∃ v : value, value_init E = Some v ∧ all_zero v = true.
Proof.
  induction E as [| |P _|c|E _|E IH n]; simpl; intros HE; try discriminate HE.
  - by eexists.
  - by eexists.
  - by eexists.
  - destruct (IH HE) as (v & -> & Hv). simpl.
    eexists. split; [done|]. simpl. by apply forallb_replicate.
Qed.

(** X7: for an element type built from scalar types by bounded arrays,
    such as [int[3]] in [make_unique<int[][3]>(n)], and a length whose
    elements do not exceed the largest array, the call returns and every
    element of the returned sequence is zeroed all the way down: each
    scalar in it, at any depth, is zero or a null pointer. *)
Theorem make_unique_nested_array_zeroed
    (E : cxx_type) (c : value_category) (n : N) (h : gmap loc block) :
  scalar_array E = true →
  (Z.of_N n < 2 ^ size_bits)%Z →
  array_fits E n = true →
  ∃ (l : loc) (vs : list value),
    make_unique (TUnboundedArray E) [(c, VInt (Z.of_N n))] h =
      Done (UniquePtr (TUnboundedArray E) (Some l), <[l := Sequence E vs]> h) ∧
    length vs = N.to_nat n ∧
    Forall (λ v, all_zero v = true) vs.
Proof.
  intros HE Hn Hfits.
  destruct (scalar_array_value_init E HE) as (v & Hv & Hzero).
  exists (allocate h), (replicate (N.to_nat n) v).
  split; [by apply make_unique_array_run|].
  split; [apply length_replicate|].
  by apply Forall_replicate.
Qed.

Lemma make_unique_nested_array_zeroed_witness :
  scalar_array (TBoundedArray (TBoundedArray (TPointer TInt) 2) 3) = true ∧
  (Z.of_N 2 < 2 ^ size_bits)%Z ∧
  array_fits (TBoundedArray (TBoundedArray (TPointer TInt) 2) 3) 2 = true ∧
  ∃ (l : loc) (vs : list value),
    make_unique (TUnboundedArray (TBoundedArray (TBoundedArray (TPointer TInt) 2) 3))
      [(Rvalue, VInt (Z.of_N 2))] ∅ =
      Done (UniquePtr (TUnboundedArray (TBoundedArray (TBoundedArray (TPointer TInt) 2) 3))
              (Some l),
            <[l := Sequence (TBoundedArray (TBoundedArray (TPointer TInt) 2) 3) vs]> ∅) ∧
    length vs = N.to_nat 2 ∧
    Forall (λ v, all_zero v = true) vs.
Proof.
  split; [reflexivity|]. split; [reflexivity|]. split; [reflexivity|].
  apply (make_unique_nested_array_zeroed
           (TBoundedArray (TBoundedArray (TPointer TInt) 2) 3) Rvalue 2 ∅);
    reflexivity.
Defined.

(** ** not_fn under composition and repeated calls *)

Section not_fn_sequences.
Context {F A R W : Type} `{Callable F A R W} `{BoolTestable R}.

Lemma invoke_wrapper (q : qualifier) (g : not_fn_result F) (a : A) (w : W) :
  invoke q g a w = call q g a w.
Proof. reflexivity. Qed.

(** The results, in order, negated. *)
Lemma invoke_all_not_fn (calls : list (qualifier * A)) : ∀ (f : F) (w : W),
  invoke_all (not_fn f) calls w =
    (lnot <$> (invoke_all f calls w).1.1,
     not_fn (invoke_all f calls w).1.2,
     (invoke_all f calls w).2).
Proof.
  unfold not_fn.
  induction calls as [|[q a] calls IH]; intros f w; [done|].
  simpl. rewrite invoke_wrapper, call_invoke. simpl.
  destruct (invoke q f a w) as [[r f'] w']. simpl.
  rewrite (IH f' w').
  by destruct (invoke_all f' calls w') as [[rs f''] w''].
Qed.

Lemma invoke_recording (q : qualifier) (f : F) (a : A) (w : W)
    (log : list (qualifier * A)) :
  invoke q (Recording f) a (w, log) =
    ((invoke q f a w).1.1, Recording (invoke q f a w).1.2,
     ((invoke q f a w).2, log ++ [(q, a)])).
Proof.
  unfold invoke at 1, recording_callable. simpl.
  by destruct (invoke q f a w) as [[r f'] w'].
Qed.

Lemma invoke_all_recording (calls : list (qualifier * A)) :
  ∀ (f : F) (w : W) (log : list (qualifier * A)),
  invoke_all (Recording f) calls (w, log) =
    ((invoke_all f calls w).1.1,
     Recording (invoke_all f calls w).1.2,
     ((invoke_all f calls w).2, log ++ calls)).
Proof.
  induction calls as [|[q a] calls IH]; intros f w log.
  - simpl. by rewrite app_nil_r.
  - simpl. rewrite invoke_recording.
    destruct (invoke q f a w) as [[r f'] w']. simpl.
    rewrite (IH f' w' (log ++ [(q, a)])).
    destruct (invoke_all f' calls w') as [[rs f''] w'']. simpl.
    by rewrite <- app_assoc.
Qed.

End not_fn_sequences.

Section not_fn_composition.
Context {F A R W : Type} `{Callable F A R W} `{BoolTestable R}.

(** X9: negating twice gives back the truth value of the wrapped
    callable: [not_fn(not_fn(f))] called with [a] under [q] returns the
    truth of what [f] returns, after one invocation of [f] with [a]
    under the same [q], which a recording [f] logs once. *)
Theorem not_fn_twice (q : qualifier) (f : F) (a : A) (w : W)
    (log : list (qualifier * A)) :
  call q (not_fn (not_fn f)) a w =
    (truth (invoke q f a w).1.1,
     not_fn (not_fn (invoke q f a w).1.2),
     (invoke q f a w).2) ∧
  (call q (not_fn (not_fn (Recording f))) a (w, log)).2 =
    ((invoke q f a w).2, log ++ [(q, a)]).
Proof.
  split.
  - rewrite call_invoke. simpl.
    unfold invoke at 1 2 3, not_fn_result_callable.
    rewrite call_invoke. simpl.
    unfold lnot, truth at 1, bool_testable. simpl.
    by rewrite negb_involutive.
  - rewrite call_invoke. simpl.
    unfold invoke at 1, not_fn_result_callable.
    rewrite call_invoke. simpl.
    unfold invoke at 1, recording_callable. simpl.
    by destruct (invoke q f a w) as [[r f'] w'].
Qed.

(** X10: a wrapper called any number of times, under any qualifiers,
    invokes the wrapped callable once per call, in the same order, with
    the same qualifiers and arguments, threading its state from call to
    call; the results are those of the wrapped callable, each negated. *)
Theorem not_fn_calls_in_order (calls : list (qualifier * A)) (f : F) (w : W)
    (log : list (qualifier * A)) :
  invoke_all (not_fn (Recording f)) calls (w, log) =
    (lnot <$> (invoke_all f calls w).1.1,
     not_fn (Recording (invoke_all f calls w).1.2),
     ((invoke_all f calls w).2, log ++ calls)).
Proof.
  rewrite invoke_all_not_fn, invoke_all_recording. done.
Qed.

(** X11: over any range, the elements that [not_fn(f)] accepts and the
    elements that [f] accepts are complementary: the two counts of
    [count_if] add up to the length of the range, and both runs leave
    the same world and the same state of [f]. *)
Theorem count_if_not_fn_complement (range : list A) (f : F) (w : W) :
  ((count_if (not_fn f) range w).1.1 + (count_if f range w).1.1 = length range)%nat ∧
  (count_if (not_fn f) range w).1.2 = not_fn (count_if f range w).1.2 ∧
  (count_if (not_fn f) range w).2 = (count_if f range w).2.
Proof.
  unfold not_fn.
  revert f w. induction range as [|a range IH]; intros f w; [done|].
  simpl. rewrite invoke_wrapper, call_invoke. simpl.
  destruct (invoke lvalue_call f a w) as [[r f'] w']. simpl.
  destruct (IH f' w') as (Hcount & Hfn & Hworld).
  destruct (count_if (NotFnResult f') range w') as [[n g] w1].
  destruct (count_if f' range w') as [[k f''] w2].
  simpl in *. subst g w1.
  split; [|done].
  unfold lnot, truth at 1, bool_testable; simpl.
  destruct (truth r); simpl; lia.
Qed.
End not_fn_composition.

(** ** ostream_joiner over several runs, joiners and streams *)


Section joiner_runs.
Context {DelimT : Type} `{Insertable DelimT}.

Implicit Types (m : memory DelimT) (j : ostream_joiner DelimT).
Implicit Types (this s : loc) (vs : list printable).

Lemma assign_all_app vs1 vs2 this m :
  assign_all this (vs1 ++ vs2) m = (assign_all this vs1;; assign_all this vs2) m.
Proof.
  revert m. induction vs1 as [|v vs1 IH]; intros m; [done|].
  simpl. unfold bind at 1 2 3.
  destruct (@assign _ _ _ (printable_insert v) this (printable_value v) m)
    as [[r m1]| | |]; [|done..].
  by rewrite IH.
Qed.

(** X12: a sequence of values assigned in two runs through a joiner
    just constructed over [s] leaves on [s] the text of the whole
    sequence, the second run continuing with the delimiter where the
    first stopped: the memory is the one a single run leaves. *)
Theorem assign_all_in_two_runs vs1 vs2 this s (d : DelimT) m content :
  streams m !! s = Some content →
  ∃ m' : memory DelimT,
    (construct_move this s d;; assign_all this vs1;; assign_all this vs2) m
      = Done (tt, m') ∧
    streams m' = <[s := content +:+ joined d (vs1 ++ vs2)]> (streams m) ∧
    (construct_move this s d;; assign_all this (vs1 ++ vs2)) m = Done (tt, m').
Proof.
  intros Hs. unfold bind at 1 3. rewrite construct_move_run.
  rewrite <- assign_all_app.
  destruct (assign_all_run (vs1 ++ vs2) this
              (Memory (streams m) (<[this := Joiner s d true]> (joiners m)))
              (Joiner s d true) content)
    as (m' & Hrun & Hstreams & _); simpl; [apply lookup_insert_eq | done |].
  exists m'. by rewrite Hrun.
Qed.

(** X13: a run of at least one assignment through a live joiner clears
    its first-element flag and keeps its stream and its delimiter; it
    changes no other joiner and no stream but the one the joiner points
    to. *)
Theorem assign_all_clears_flag vs this m j content :
  joiners m !! this = Some j →
  streams m !! out_stream j = Some content →
  vs ≠ [] →
  ∃ m' : memory DelimT,
    assign_all this vs m = Done (tt, m') ∧
    joiners m' !! this = Some (Joiner (out_stream j) (delim j) false) ∧
    (∀ this' : loc, this' ≠ this → joiners m' !! this' = joiners m !! this') ∧
    (∀ s' : loc, s' ≠ out_stream j → streams m' !! s' = streams m !! s').
Proof.
  intros Hj Hs Hvs.
  destruct (assign_all_run vs this m j content Hj Hs) as (m' & Hrun & Hstreams & Hjoiners).
  exists m'. split; [done|].
  rewrite Hstreams, Hjoiners.
  split; [|split].
  - rewrite lookup_insert_eq. by destruct vs.
  - intros this' Hne. by rewrite lookup_insert_ne.
  - intros s' Hne. by rewrite lookup_insert_ne.
Qed.

(** X14: a live joiner whose flag is already cleared writes its
    delimiter before every value of a further run, the first one
    included. *)
Theorem assign_all_resumes_with_delimiter vs this m j content :
  joiners m !! this = Some j →
  streams m !! out_stream j = Some content →
  first_element j = false →
  ∃ m' : memory DelimT,
    assign_all this vs m = Done (tt, m') ∧
    streams m' !! out_stream j = Some (content +:+ joined_rest (delim j) vs).
Proof.
  intros Hj Hs Hflag.
  destruct (assign_all_run vs this m j content Hj Hs) as (m' & Hrun & Hstreams & _).
  exists m'. split; [done|].
  by rewrite Hstreams, Hflag, lookup_insert_eq.
Qed.

(** X15: two joiners over one stream keep their own flags and
    delimiters: assigning alternately through both, each writes its
    first value bare and its own delimiter before its second value, in
    the order of the assignments. *)
Theorem joiners_share_stream {V : Type} `{Insertable V}
    (this1 this2 s : loc) (d1 d2 : DelimT) (a b c e : V) m content :
  this1 ≠ this2 →
  streams m !! s = Some content →
  ∃ m' : memory DelimT,
    (construct_move this1 s d1;; construct_move this2 s d2;;
     assign this1 a;; assign this2 b;; assign this1 c;; assign this2 e) m
      = Done (this2, m') ∧
    streams m' !! s =
      Some (content +:+ inserted a +:+ inserted b
                    +:+ inserted d1 +:+ inserted c
                    +:+ inserted d2 +:+ inserted e).
Proof.
  intros Hne Hs.
  unfold bind at 1. rewrite construct_move_run.
  unfold bind at 1. rewrite construct_move_run. simpl.
  unfold bind at 1.
  erewrite assign_run; simpl;
    [|by rewrite lookup_insert_ne, lookup_insert_eq|exact Hs].
  unfold bind at 1.
  erewrite assign_run; simpl;
    [|by rewrite lookup_insert_ne, lookup_insert_eq|by rewrite lookup_insert_eq].
  unfold bind at 1.
  erewrite assign_run; simpl;
    [|by rewrite lookup_insert_ne, lookup_insert_eq|by rewrite lookup_insert_eq].
  erewrite assign_run; simpl;
    [|by rewrite lookup_insert_ne, lookup_insert_eq|by rewrite lookup_insert_eq].
  eexists. split; [done|]. simpl.
  rewrite lookup_insert_eq. by rewrite !append_assoc.
Qed.

(** X16: the loop of a generic copy, dereference, assign, pre-increment
    for each value, run on a joiner just constructed over [s], returns
    the joiner and leaves on [s] the values joined by the delimiter, as
    the plain assignments do. *)
Theorem copy_to_writes_joined vs this s (d : DelimT) m content :
  streams m !! s = Some content →
  ∃ m' : memory DelimT,
    (construct_move this s d;; copy_to this vs) m = Done (this, m') ∧
    streams m' = <[s := content +:+ joined d vs]> (streams m) ∧
    (construct_move this s d;; assign_all this vs) m = Done (tt, m').
Proof.
  intros Hs. unfold bind. rewrite construct_move_run.
  rewrite copy_to_assign_all.
  destruct (assign_all_run vs this
              (Memory (streams m) (<[this := Joiner s d true]> (joiners m)))
              (Joiner s d true) content)
    as (m' & Hrun & Hstreams & _); simpl; [apply lookup_insert_eq | done |].
  exists m'. by rewrite Hrun.
Qed.
End joiner_runs.





Lemma assign_all_in_two_runs_witness :
  streams (Memory {[1%positive := ""]} ∅ : memory string) !! 1%positive = Some "" ∧
  ∃ m' : memory string,
    (construct_move 2%positive 1%positive ",";;
     assign_all 2%positive [Printable 1%Z; Printable 2%Z];;
     assign_all 2%positive [Printable 3%Z])
      (Memory {[1%positive := ""]} ∅) = Done (tt, m') ∧
    streams m' =
      <[1%positive := "" +:+ joined "," ([Printable 1%Z; Printable 2%Z] ++ [Printable 3%Z])]>
        {[1%positive := ""]}.
Proof.
  assert (Hs : streams (Memory {[1%positive := ""]} ∅ : memory string) !! 1%positive
               = Some "") by reflexivity.
  split; [exact Hs|].
  destruct (assign_all_in_two_runs [Printable 1%Z; Printable 2%Z] [Printable 3%Z]
              2%positive 1%positive "," (Memory {[1%positive := ""]} ∅) "" Hs)
    as (m' & Hrun & Hstreams & _).
  exists m'. split; [exact Hrun | exact Hstreams].
Defined.

Lemma assign_all_clears_flag_witness :
  joiners (Memory {[1%positive := "a"]} {[2%positive := Joiner 1%positive "," true]})
    !! 2%positive = Some (Joiner 1%positive "," true) ∧
  streams (Memory {[1%positive := "a"]} {[2%positive := Joiner 1%positive "," true]})
    !! 1%positive = Some "a" ∧
  [Printable 5%Z] ≠ [] ∧
  ∃ m' : memory string,
    assign_all 2%positive [Printable 5%Z]
      (Memory {[1%positive := "a"]} {[2%positive := Joiner 1%positive "," true]})
      = Done (tt, m') ∧
    joiners m' !! 2%positive = Some (Joiner 1%positive "," false).
Proof.
  assert (Hj : joiners (Memory {[1%positive := "a"]}
                          {[2%positive := Joiner 1%positive "," true]})
                 !! 2%positive = Some (Joiner 1%positive "," true)) by reflexivity.
  assert (Hs : streams (Memory {[1%positive := "a"]}
                          {[2%positive := Joiner 1%positive "," true]})
                 !! out_stream (Joiner 1%positive "," true) = Some "a") by reflexivity.
  assert (Hvs : [Printable 5%Z] ≠ []) by discriminate.
  split; [exact Hj|]. split; [exact Hs|]. split; [exact Hvs|].
  destruct (assign_all_clears_flag [Printable 5%Z] 2%positive _ _ _ Hj Hs Hvs)
    as (m' & Hrun & Hflag & _).
  exists m'. split; [exact Hrun | exact Hflag].
Defined.

Lemma assign_all_resumes_with_delimiter_witness :
  joiners (Memory {[1%positive := "a"]} {[2%positive := Joiner 1%positive "," false]})
    !! 2%positive = Some (Joiner 1%positive "," false) ∧
  streams (Memory {[1%positive := "a"]} {[2%positive := Joiner 1%positive "," false]})
    !! 1%positive = Some "a" ∧
  first_element (Joiner 1%positive "," false) = false ∧
  ∃ m' : memory string,
    assign_all 2%positive [Printable "b"; Printable "c"]
      (Memory {[1%positive := "a"]} {[2%positive := Joiner 1%positive "," false]})
      = Done (tt, m') ∧
    streams m' !! 1%positive =
      Some ("a" +:+ joined_rest "," [Printable "b"; Printable "c"]).
Proof.
  assert (Hj : joiners (Memory {[1%positive := "a"]}
                          {[2%positive := Joiner 1%positive "," false]})
                 !! 2%positive = Some (Joiner 1%positive "," false)) by reflexivity.
  assert (Hs : streams (Memory {[1%positive := "a"]}
                          {[2%positive := Joiner 1%positive "," false]})
                 !! out_stream (Joiner 1%positive "," false) = Some "a") by reflexivity.
  split; [exact Hj|]. split; [exact Hs|]. split; [reflexivity|].
  apply (assign_all_resumes_with_delimiter [Printable "b"; Printable "c"]
           2%positive _ _ _ Hj Hs eq_refl).
Defined.

Lemma joiners_share_stream_witness :
  2%positive ≠ 3%positive ∧
  streams (Memory {[1%positive := ""]} ∅ : memory string) !! 1%positive = Some "" ∧
  ∃ m' : memory string,
    (construct_move 2%positive 1%positive ",";; construct_move 3%positive 1%positive ";";;
     assign 2%positive 1%Z;; assign 3%positive 2%Z;;
     assign 2%positive 3%Z;; assign 3%positive 4%Z)
      (Memory {[1%positive := ""]} ∅) = Done (3%positive, m') ∧
    streams m' !! 1%positive =
      Some ("" +:+ inserted 1%Z +:+ inserted 2%Z +:+ inserted "," +:+ inserted 3%Z
               +:+ inserted ";" +:+ inserted 4%Z).
Proof.
  assert (Hne : 2%positive ≠ 3%positive) by discriminate.
  assert (Hs : streams (Memory {[1%positive := ""]} ∅ : memory string) !! 1%positive
               = Some "") by reflexivity.
  split; [exact Hne|]. split; [exact Hs|].
  apply (joiners_share_stream 2%positive 3%positive 1%positive "," ";"
           1%Z 2%Z 3%Z 4%Z (Memory {[1%positive := ""]} ∅) "" Hne Hs).
Defined.

Lemma copy_to_writes_joined_witness :
  streams (Memory {[1%positive := "v: "]} ∅ : memory string) !! 1%positive = Some "v: " ∧
  ∃ m' : memory string,
    (construct_move 2%positive 1%positive ", ";;
     copy_to 2%positive [Printable 1%Z; Printable "two"])
      (Memory {[1%positive := "v: "]} ∅) = Done (2%positive, m') ∧
    streams m' =
      <[1%positive := "v: " +:+ joined ", " [Printable 1%Z; Printable "two"]]>
        {[1%positive := "v: "]}.
Proof.
  assert (Hs : streams (Memory {[1%positive := "v: "]} ∅ : memory string) !! 1%positive
               = Some "v: ") by reflexivity.
  split; [exact Hs|].
  destruct (copy_to_writes_joined [Printable 1%Z; Printable "two"]
              2%positive 1%positive ", " (Memory {[1%positive := "v: "]} ∅) "v: " Hs)
    as (m' & Hrun & Hstreams & _).
  exists m'. split; [exact Hrun | exact Hstreams].
Defined.

(** ** Array lengths beyond the largest array *)

Lemma make_unique_array_over_limit (E : cxx_type) (c : value_category) (z : Z)
    (v : value) (h : gmap loc block) :
  value_init E = Some v →
  array_fits E (to_size_t z) = false →
  make_unique (TUnboundedArray E) [(c, VInt z)] h = Thrown bad_array_new_length.
Proof.
  intros Hv Hfits. unfold make_unique.
  rewrite candidates_array. simpl.
  unfold make_unique_array_body, new_array. simpl. by rewrite Hv, Hfits.
Qed.

Lemma to_size_t_negative (z : Z) :
  (- 2 ^ 63 ≤ z < 0)%Z → to_size_t z = Z.to_N (2 ^ 64 + z).
Proof.
  intros Hz. unfold to_size_t, size_bits. f_equal.
  rewrite <- (Z.mod_add z 1 (2 ^ 64)) by lia.
  rewrite Z.mod_small; lia.
Qed.

(** X18: a negative length converts to a [std::size_t] beyond the
    largest array: [make_unique<E[]>(z)] with [z] negative, as
    [make_unique<int[]>(-1)], compiles for every element type that can
    be value-initialised, then leaves by [std::bad_array_new_length]
    and returns no handle; so does every length whose elements exceed
    the largest array. *)
Theorem make_unique_array_negative_length_throws
    (E : cxx_type) (c : value_category) (z : Z) (v : value) (h : gmap loc block) :
  value_init E = Some v →
  sizeof E ≠ 0%N →
  (- 2 ^ 63 ≤ z < 0)%Z ∨ array_fits E (to_size_t z) = false →
  candidates (TUnboundedArray E) [(c, VInt z)] = [make_unique_array] ∧
  make_unique (TUnboundedArray E) [(c, VInt z)] h = Thrown bad_array_new_length ∧
  is_done (make_unique (TUnboundedArray E) [(c, VInt z)] h) = false.
Proof.
  intros Hv Hsize Hz.
  assert (Hfits : array_fits E (to_size_t z) = false).
  { destruct Hz as [Hz|Hz]; [|done].
    rewrite to_size_t_negative by done.
    unfold array_fits, max_array_bytes. apply N.leb_gt. nia. }
  split; [apply candidates_array|].
  by rewrite (make_unique_array_over_limit E c z v h Hv Hfits).
Qed.

Lemma make_unique_array_negative_length_throws_witness :
  value_init TInt = Some (VInt 0) ∧
  sizeof TInt ≠ 0%N ∧
  ((- 2 ^ 63 ≤ -1 < 0)%Z ∨ array_fits TInt (to_size_t (-1)) = false) ∧
  make_unique (TUnboundedArray TInt) [(Rvalue, VInt (-1))] ∅ = Thrown bad_array_new_length.
Proof.
  assert (Hsize : sizeof TInt ≠ 0%N) by discriminate.
  assert (Hz : (- 2 ^ 63 ≤ -1 < 0)%Z ∨ array_fits TInt (to_size_t (-1)) = false)
    by (left; lia).
  split; [reflexivity|]. split; [exact Hsize|]. split; [exact Hz|].
  apply (make_unique_array_negative_length_throws TInt Rvalue (-1) (VInt 0) ∅
           eq_refl Hsize Hz).
Defined.
